(** * prism: the overlay window toggled by a global hotkey (main.go)

    A shallow embedding of [main] and [handleHotkey].  The packages the
    program is linked against (the Wails application and window objects, the
    hotkey package, the logger) are not part of the repository: windows are
    taken through an interface ([WindowSystem]) and every theorem says which
    behaviour of that interface it relies on. *)

From stdpp Require Import base option list strings.

(** ** A state monad in which a nil dereference panics

    Handlers are Go closures over the package-level variable [window] and the
    application object.  [None] is a run-time panic of the goroutine, which
    takes the process down. *)

Definition M (S A : Type) : Type := S -> option (A * S).

Definition ret {S A} (x : A) : M S A := fun s => Some (x, s).

Definition bind {S A B} (m : M S A) (k : A -> M S B) : M S B :=
  fun s => match m s with
           | Some (x, s') => k x s'
           | None => None
           end.

Definition exec {S A} (m : M S A) (s : S) : option S :=
  match m s with
  | Some (_, s') => Some s'
  | None => None
  end.

Declare Scope go_scope.
Delimit Scope go_scope with go.
Notation "x <- m ;; k" := (bind m (fun x => k))
  (at level 100, m at next level, right associativity) : go_scope.
Notation "m ;; k" := (bind m (fun _ => k))
  (at level 100, right associativity) : go_scope.

(** ** Values of the external packages *)

(** The package [application] of Wails: the fields of
    [WebviewWindowOptions] the program sets that bear on behaviour, and
    [Hidden], which it leaves at Go's zero value.  [H] is the type of a
    key-binding callback. *)
Module application.

Record WebviewWindowOptions (H : Type) := mkOptions {
  Title : string;
  Frameless : bool;
  URL : string;
  Width : Z;
  Height : Z;
  DisableResize : bool;
  Hidden : bool;
  KeyBindings : list (string * H)
}.
Arguments mkOptions {H}.
Arguments Title {H}.
Arguments Frameless {H}.
Arguments URL {H}.
Arguments Width {H}.
Arguments Height {H}.
Arguments DisableResize {H}.
Arguments Hidden {H}.
Arguments KeyBindings {H}.

End application.

(** Lookup in a Go map literal written as the list of its entries. *)
Fixpoint bound {H} (key : string) (m : list (string * H)) : option H :=
  match m with
  | [] => None
  | (k, h) :: m' => if decide (k = key) then Some h else bound key m'
  end.

(** Methods of [*application.WebviewWindow] called by the program. *)
Inductive Call := CShow | CHide | CFocus | CIsVisible | CIsFocused.

Global Instance Call_eq_dec : EqDecision Call.
Proof. solve_decision. Defined.

(** [show], [hide] and [focus] are the calls that command the window;
    the other two only query it. *)
Definition is_command (c : Call) : bool :=
  match c with
  | CShow | CHide | CFocus => true
  | CIsVisible | CIsFocused => false
  end.

(** How often [c] occurs in a list of calls, and whether some [c] comes
    before some [d] in it. *)
Definition occurrences (c : Call) (cs : list Call) : nat :=
  length (filter (fun x => x = c) cs).


(** What the window system does with one window.  [W] is whatever the
    window system remembers about it. *)
Class WindowSystem (W : Type) := {
  os_create : forall H, application.WebviewWindowOptions H -> W;
  os_show : W -> W;
  os_hide : W -> W;
  os_focus : W -> W;
  os_visible : W -> bool;
  os_focused : W -> bool
}.
Arguments os_create {W _ H}.

(** A window system in which a command has taken effect when it returns. *)
Class Prompt (W : Type) `{WindowSystem W} : Prop := {
  visible_show : forall w, os_visible (os_show w) = true;
  visible_hide : forall w, os_visible (os_hide w) = false;
  visible_focus : forall w, os_visible (os_focus w) = os_visible w
}.

(** A window system that honours the [Hidden] option the way Wails documents
    it: a window is put on screen when the application runs unless it was
    created with [Hidden: true]. *)
Class HonoursHidden (W : Type) `{WindowSystem W} : Prop :=
  visible_create : forall H (o : application.WebviewWindowOptions H),
    os_visible (os_create o) = negb (application.Hidden o).

(** What [log.Println] was given. *)
Inductive LogLine :=
| LogBool (b : bool)
| LogErr (e : string).

(** What the program's callbacks are registered for: a press of the
    registered hotkey, window [i] losing the keyboard focus, a key pressed in
    window [i] while it has the keyboard focus, a click on a tray menu
    item. *)
Inductive Event :=
| Keydown
| WindowLostFocus (i : nat)
| KeyPressed (i : nat) (key : string)
| MenuClicked (label : string).

(** ** The visibility state machine as the specification words it *)

Inductive VisibilityState := Visible | Hidden.

Global Instance VisibilityState_eq_dec : EqDecision VisibilityState.
Proof. solve_decision. Defined.

Inductive ToggleEvent := HotkeyPressed | FocusLost.

Global Instance ToggleEvent_eq_dec : EqDecision ToggleEvent.
Proof. solve_decision. Defined.

(** The transition table of the specification: action and next state. *)
Definition spec_transition (s : VisibilityState) (e : ToggleEvent)
  : list Call * VisibilityState :=
  match s, e with
  | Hidden, HotkeyPressed => ([CShow; CFocus], Visible)
  | Visible, HotkeyPressed => ([CHide], Hidden)
  | Visible, FocusLost => ([CHide], Hidden)
  | Hidden, FocusLost => ([], Hidden)
  end.

(** The actions the table prescribes along an event sequence. *)
Fixpoint spec_actions (s : VisibilityState) (evs : list ToggleEvent)
  : list (ToggleEvent * list Call) :=
  match evs with
  | [] => []
  | e :: evs' =>
      let '(act, s') := spec_transition s e in
      (e, act) :: spec_actions s' evs'
  end.

Fixpoint spec_run (s : VisibilityState) (evs : list ToggleEvent)
  : VisibilityState :=
  match evs with
  | [] => s
  | e :: evs' => spec_run (snd (spec_transition s e)) evs'
  end.

(** The actions taken for the hotkey presses of a sequence. *)
Fixpoint hotkey_only (l : list (ToggleEvent * list Call))
  : list (list Call) :=
  match l with
  | [] => []
  | (HotkeyPressed, act) :: l' => act :: hotkey_only l'
  | (FocusLost, _) :: l' => hotkey_only l'
  end.

(** ** The program *)

Section Prism.
Context {W : Type} `{WindowSystem W}.

(** A [*application.WebviewWindow]: nil, or the index of a window among
    those the application object has created. *)
Definition ptr : Type := option nat.

(** The process: the windows of [app], the package-level [window], whether
    the goroutine ranging over [Keydown()] was started, the method calls
    made so far with their receivers, and the log. *)
Record App := mkApp {
  windows : list W;
  window : ptr;
  listening : bool;
  calls : list (nat * Call);
  logged : list LogLine;
  exited : option Z
}.

Definition proc (A : Type) : Type := M App A.

(** The state of a Go program before [main] runs. *)
Definition boot : App :=
  {| windows := []; window := None; listening := false;
     calls := []; logged := []; exited := None |}.

(** The process after the call [c] has left window [i] as [w']. *)
Definition called (i : nat) (c : Call) (w' : W) (a : App) : App :=
  {| windows := <[i := w']> (windows a);
     window := window a;
     listening := listening a;
     calls := calls a ++ [(i, c)];
     logged := logged a;
     exited := exited a |}.

(** A method call [c] on the receiver [p]: the window system answers with
    [q] and is left in [f]; a nil receiver panics. *)
Definition method {A} (c : Call) (f : W -> W) (q : W -> A) (p : ptr)
  : proc A :=
  fun a =>
    match p with
    | Some i =>
        match windows a !! i with
        | Some w => Some (q w, called i c (f w) a)
        | None => None
        end
    | None => None
    end.

Definition Show : ptr -> proc unit := method CShow os_show (fun _ => tt).
Definition Hide : ptr -> proc unit := method CHide os_hide (fun _ => tt).
Definition Focus : ptr -> proc unit := method CFocus os_focus (fun _ => tt).
Definition IsVisible : ptr -> proc bool := method CIsVisible id os_visible.
Definition IsFocused : ptr -> proc bool := method CIsFocused id os_focused.

(** The process after [l] was written to the log. *)
Definition printed (l : LogLine) (a : App) : App :=
  {| windows := windows a; window := window a;
     listening := listening a; calls := calls a;
     logged := logged a ++ [l]; exited := exited a |}.

(** [log.Println]. *)
Definition Println (l : LogLine) : proc unit :=
  fun a => Some (tt, printed l a).

(** [log.Fatal]: print, then [os.Exit(1)]. *)
Definition Fatal (l : LogLine) : proc unit :=
  fun a =>
    Some (tt,
          {| windows := windows a; window := window a;
             listening := listening a; calls := calls a;
             logged := logged a ++ [l]; exited := Some 1%Z |}).

(** [app.NewWebviewWindowWithOptions]. *)
Definition NewWebviewWindowWithOptions {H}
    (o : application.WebviewWindowOptions H)
  : proc ptr :=
  fun a =>
    Some (Some (length (windows a)),
          {| windows := windows a ++ [os_create o]; window := window a;
             listening := listening a; calls := calls a;
             logged := logged a; exited := exited a |}).

(** Assignment to the package-level [window]. *)
Definition set_window (p : ptr) : proc unit :=
  fun a =>
    Some (tt,
          {| windows := windows a; window := p;
             listening := listening a; calls := calls a;
             logged := logged a; exited := exited a |}).

(** [window.m()]: the package-level variable is read when the call is made. *)
Definition via {A} (m : ptr -> proc A) : proc A := fun a => m (window a) a.

(** The options of the overlay window, main.go lines 57-77. *)
Definition overlayOptions
  : application.WebviewWindowOptions (ptr -> proc unit) :=
  {| application.Title := "Window 1";
     application.Frameless := true;
     application.URL := "/";
     application.Width := 600%Z;
     application.Height := 50%Z;
     application.DisableResize := true;
     (* not set in the literal: Go's zero value *)
     application.Hidden := false;
     application.KeyBindings := [("escape", fun window => Hide window)] |}.

(** The options of a window opened from the tray menu, lines 91-94; only
    [Title] and [URL] are set, the rest are Go's zero values. *)
Definition helloOptions
  : application.WebviewWindowOptions (ptr -> proc unit) :=
  {| application.Title := "Hello";
     application.Frameless := false;
     application.URL := "/#/page1";
     application.Width := 0%Z;
     application.Height := 0%Z;
     application.DisableResize := false;
     application.Hidden := false;
     application.KeyBindings := [] |}.

(** The click handler of the menu item, lines 90-95. *)
Definition onHelloClick : proc unit :=
  (_ <- NewWebviewWindowWithOptions helloOptions ;; ret tt)%go.

(** The listener for [events.Common.WindowLostFocus], lines 98-100. *)
Definition onWindowLostFocus : proc unit := via Hide.

(** One turn of the loop over [showHideHotkey.Keydown()], lines 120-130. *)
Definition onKeydown : proc unit :=
  (v <- via IsVisible ;;
   if (v : bool) then
     via Hide ;;
     f <- via IsFocused ;;
     Println (LogBool f)
   else
     via Show ;;
     via Focus ;;
     f <- via IsFocused ;;
     Println (LogBool f))%go.

(** Starting the goroutine of lines 119-131. *)
Definition startLoop : proc unit :=
  fun a =>
    Some (tt,
          {| windows := windows a; window := window a;
             listening := true; calls := calls a;
             logged := logged a; exited := exited a |}).

(** [handleHotkey], given what [showHideHotkey.Register()] returned. *)
Definition handleHotkey (register : option string) : proc unit :=
  match register with
  | Some err => Println (LogErr err)
  | None => startLoop
  end.

(** [main] up to and including the registration of the listeners,
    lines 37-100. *)
Definition setup : proc unit :=
  (w <- NewWebviewWindowWithOptions overlayOptions ;;
   set_window w)%go.

(** The key binding of a window for a key: the overlay has the bindings of
    its options, the windows of the tray menu have none. *)
Definition binding (a : App) (i : nat) (key : string)
  : option (ptr -> proc unit) :=
  if decide (window a = Some i)
  then bound key (application.KeyBindings overlayOptions)
  else None.

(** Delivery of one event to what [main] registered for it.  A hotkey press
    is picked up only by the loop; the focus listener is the overlay's. *)
Definition deliver (e : Event) : proc unit :=
  fun a =>
    match e with
    | Keydown => if listening a then onKeydown a else ret tt a
    | WindowLostFocus i =>
        if decide (window a = Some i) then onWindowLostFocus a else ret tt a
    | KeyPressed i key =>
        match binding a i key with
        | Some h => h (Some i) a
        | None => ret tt a
        end
    | MenuClicked label =>
        if decide (label = "Hello World!") then onHelloClick a else ret tt a
    end.

(** [app.Run()] handling the events that arrive before the application is
    quit. *)
Fixpoint Run (evs : list Event) : proc unit :=
  match evs with
  | [] => ret tt
  | e :: evs' => (deliver e ;; Run evs')%go
  end.

(** [main]: [register] is the outcome of registering the hotkey, [evs] what
    happens while the application runs, [runErr] what [app.Run()] returns.
    [handleHotkey] is started as a goroutine; it touches nothing a callback
    reads before the loop is started, so it is run here before the first
    event. *)
Definition main (register : option string) (evs : list Event)
    (runErr : option string) : proc unit :=
  (setup ;;
   handleHotkey register ;;
   Run evs ;;
   match runErr with
   | Some err => Fatal (LogErr err)
   | None => ret tt
   end)%go.

(** *** Observations *)

(** The overlay window, if [window] points to one. *)
Definition overlay (a : App) : option W :=
  match window a with
  | Some i => windows a !! i
  | None => None
  end.

(** [window] points to window [i], which is in state [w]. *)
Definition at_overlay (a : App) (i : nat) (w : W) : Prop :=
  window a = Some i /\ windows a !! i = Some w.

(** [a'] is [a] after the calls [cs] were made on the overlay, leaving it
    as [w']. *)
Definition overlay_step (a : App) (i : nat) (cs : list Call) (w' : W)
    (a' : App) : Prop :=
  at_overlay a' i w' /\
  calls a' = calls a ++ (pair i <$> cs) /\
  listening a' = listening a /\
  exited a' = exited a /\
  length (windows a) <= length (windows a').

(** The only visibility state the program has: what [IsVisible] reports. *)
Definition visibility (w : W) : VisibilityState :=
  if os_visible w then Visible else Hidden.

(** The commands among the calls made after the first [n]. *)
Definition commands_after (n : nat) (a : App) : list Call :=
  filter (fun c => is_command c = true) (snd <$> drop n (calls a)).

(** The commands an event makes the program issue, if it does not panic. *)
Definition issued (e : Event) (a : App) : option (list Call) :=
  commands_after (length (calls a)) <$> exec (deliver e) a.

Definition toggle (a : App) (e : ToggleEvent) : Event :=
  match e with
  | HotkeyPressed => Keydown
  | FocusLost => WindowLostFocus (default 0 (window a))
  end.

(** The commands the program issues along a sequence of toggle events. *)
Fixpoint code_actions (evs : list ToggleEvent) (a : App)
  : option (list (ToggleEvent * list Call)) :=
  match evs with
  | [] => Some []
  | e :: evs' =>
      match exec (deliver (toggle a e)) a with
      | Some a' =>
          cons (e, commands_after (length (calls a)) a')
            <$> code_actions evs' a'
      | None => None
      end
  end.

(** *** The two goroutines side by side

    The hotkey loop runs in a goroutine of its own and the focus listener is
    called from the window system's event loop; nothing in main.go orders
    them.  One step is one statement, so one method call. *)

(** Where one turn of the loop of lines 120-130 stands. *)
Inductive LoopPc := AtTest | AtHide | AtShow | AtFocus | AtLog | AtEnd.

Definition loop_step (pc : LoopPc) : proc LoopPc :=
  match pc with
  | AtTest => (v <- via IsVisible ;; ret (if (v : bool) then AtHide else AtShow))%go
  | AtHide => (via Hide ;; ret AtLog)%go
  | AtShow => (via Show ;; ret AtFocus)%go
  | AtFocus => (via Focus ;; ret AtLog)%go
  | AtLog => (f <- via IsFocused ;; Println (LogBool f) ;; ret AtEnd)%go
  | AtEnd => ret AtEnd
  end.

(** Where the listener of lines 98-100 stands. *)
Inductive ListenerPc := AtCall | AtReturn.

Definition listener_step (pc : ListenerPc) : proc ListenerPc :=
  match pc with
  | AtCall => (via Hide ;; ret AtReturn)%go
  | AtReturn => ret AtReturn
  end.

Inductive Goroutine := HotkeyLoop | FocusListener.

Definition Conf : Type := LoopPc * ListenerPc * App.

(** The scheduler lets [g] take its next step; a goroutine that has finished
    cannot be chosen. *)
Definition sched_step (g : Goroutine) (c : Conf) : option Conf :=
  let '(l, f, a) := c in
  match g with
  | HotkeyLoop =>
      match l with
      | AtEnd => None
      | _ => match loop_step l a with
             | Some (l', a') => Some (l', f, a')
             | None => None
             end
      end
  | FocusListener =>
      match f with
      | AtReturn => None
      | _ => match listener_step f a with
             | Some (f', a') => Some (l, f', a')
             | None => None
             end
      end
  end.

Fixpoint schedule (gs : list Goroutine) (c : Conf) : option Conf :=
  match gs with
  | [] => Some c
  | g :: gs' =>
      match sched_step g c with
      | Some c' => schedule gs' c'
      | None => None
      end
  end.

(** A hotkey press and a loss of focus of the overlay, both pending. *)
Definition both_pending (a : App) : Conf := (AtTest, AtCall, a).

Definition finished (c : Conf) : Prop := c.1.1 = AtEnd /\ c.1.2 = AtReturn.

(** What [IsVisible] would report for the overlay. *)
Definition overlay_visibility (a : App) : option VisibilityState :=
  visibility <$> overlay a.




(** The same steps, seen on the overlay's window alone. *)
Definition loop_move (pc : LoopPc) (w : W) : LoopPc * W :=
  match pc with
  | AtTest => (if os_visible w then AtHide else AtShow, w)
  | AtHide => (AtLog, os_hide w)
  | AtShow => (AtFocus, os_show w)
  | AtFocus => (AtLog, os_focus w)
  | AtLog => (AtEnd, w)
  | AtEnd => (AtEnd, w)
  end.

(** The method a step calls. *)
Definition loop_call (pc : LoopPc) : list Call :=
  match pc with
  | AtTest => [CIsVisible]
  | AtHide => [CHide]
  | AtShow => [CShow]
  | AtFocus => [CFocus]
  | AtLog => [CIsFocused]
  | AtEnd => []
  end.

Definition listener_move (pc : ListenerPc) (w : W) : ListenerPc * W :=
  match pc with
  | AtCall => (AtReturn, os_hide w)
  | AtReturn => (AtReturn, w)
  end.

Definition sched_move (g : Goroutine) (c : LoopPc * ListenerPc * W)
  : option (LoopPc * ListenerPc * W) :=
  let '(l, f, w) := c in
  match g with
  | HotkeyLoop =>
      match l with
      | AtEnd => None
      | _ => Some ((loop_move l w).1, f, (loop_move l w).2)
      end
  | FocusListener =>
      match f with
      | AtReturn => None
      | _ => Some (l, (listener_move f w).1, (listener_move f w).2)
      end
  end.

Fixpoint moves (gs : list Goroutine) (c : LoopPc * ListenerPc * W)
  : option (LoopPc * ListenerPc * W) :=
  match gs with
  | [] => Some c
  | g :: gs' =>
      match sched_move g c with
      | Some c' => moves gs' c'
      | None => None
      end
  end.

End Prism.

Arguments App W : clear implicits.
Arguments Conf W : clear implicits.

(** ** Two window systems to run the program on *)

(** A window system that has carried out a command when the call returns. *)
Record PromptWindow := mkPrompt { shown : bool; keyed : bool }.

Global Instance PromptSystem : WindowSystem PromptWindow := {|
  os_create H o :=
    {| shown := negb (application.Hidden o);
       keyed := negb (application.Hidden o) |};
  os_show w := {| shown := true; keyed := keyed w |};
  os_hide w := {| shown := false; keyed := false |};
  os_focus w := {| shown := shown w; keyed := shown w |};
  os_visible := shown;
  os_focused := keyed
|}.

(** A window system that queues commands and reports what is on screen:
    [IsVisible] lags behind the last request until the window system has
    caught up. *)
Record LaggingWindow := mkLagging { on_screen : bool; requested : bool }.

Global Instance LaggingSystem : WindowSystem LaggingWindow := {|
  os_create H o :=
    {| on_screen := negb (application.Hidden o);
       requested := negb (application.Hidden o) |};
  os_show w := {| on_screen := on_screen w; requested := true |};
  os_hide w := {| on_screen := on_screen w; requested := false |};
  os_focus w := w;
  os_visible := on_screen;
  os_focused := on_screen
|}.

Definition hidden_window : PromptWindow := {| shown := false; keyed := false |}.

Definition lagging_hidden : LaggingWindow :=
  {| on_screen := false; requested := false |}.

(** A process whose overlay is window 0 in state [w], in a session in which
    the hotkey could not be registered. *)
Definition without_hotkey {W} (w : W) : App W :=
  {| windows := [w]; window := Some 0; listening := false;
     calls := []; logged := []; exited := None |}.

(** A process whose overlay is window 0 in state [w], with the hotkey loop
    running and nothing called or logged yet. *)
Definition started {W} (w : W) : App W :=
  {| windows := [w]; window := Some 0; listening := true;
     calls := []; logged := []; exited := None |}.

(** ** Bookkeeping over a run *)

(** The hotkey presses among the events. *)
Fixpoint presses (evs : list Event) : nat :=
  match evs with
  | [] => 0
  | Keydown :: evs' => S (presses evs')
  | _ :: evs' => presses evs'
  end.

(** The clicks on the menu item of [main] among the events. *)
Fixpoint hello_clicks (evs : list Event) : nat :=
  match evs with
  | [] => 0
  | MenuClicked label :: evs' =>
      if decide (label = "Hello World!")
      then S (hello_clicks evs') else hello_clicks evs'
  | _ :: evs' => hello_clicks evs'
  end.

(** An event for which nothing that [main] registered is waiting in [a]:
    a hotkey press without the loop, a loss of focus or a key in a window
    that is not the overlay, a key other than Escape, another menu item. *)
Definition unheard {W} (a : App W) (e : Event) : Prop :=
  match e with
  | Keydown => listening a = false
  | WindowLostFocus j => window a <> Some j
  | KeyPressed j key => window a <> Some j \/ key <> "escape"
  | MenuClicked label => label <> "Hello World!"
  end.

(** [a'] is [a] after a piece of a run: the overlay, still window [i], has
    become [w'] through the calls [cs], all made on it; [k] windows were
    opened from the tray menu; [ls] is what the hotkey loop logged. *)
Definition run_frame {W} `{WindowSystem W} (a : App W) (i : nat) (w' : W)
    (cs : list Call) (k : nat) (ls : list bool) (a' : App W) : Prop :=
  at_overlay a' i w' /\
  listening a' = listening a /\
  exited a' = exited a /\
  calls a' = calls a ++ (pair i <$> cs) /\
  windows a'
  = <[i := w']> (windows a) ++ replicate k (os_create (@helloOptions W)) /\
  logged a' = logged a ++ (LogBool <$> ls).

(** What the log holds when [main] is through. *)
Definition main_log (register : option string) (ls : list bool)
    (runErr : option string) : list LogLine :=
  match register with Some err => [LogErr err] | None => [] end
  ++ (LogBool <$> ls)
  ++ match runErr with Some err => [LogErr err] | None => [] end.

(** The method the next step of goroutine [g] calls. *)
Definition sched_call {W} (g : Goroutine) (c : LoopPc * ListenerPc * W)
  : list Call :=
  match g with
  | HotkeyLoop => loop_call c.1.1
  | FocusListener =>
      match c.1.2 with
      | AtCall => [CHide]
      | AtReturn => []
      end
  end.

(** The methods called along a schedule, in order. *)
Fixpoint moves_calls {W} `{WindowSystem W} (gs : list Goroutine)
    (c : LoopPc * ListenerPc * W) : list Call :=
  match gs with
  | [] => []
  | g :: gs' =>
      sched_call g c
      ++ match sched_move g c with
         | Some c' => moves_calls gs' c'
         | None => []
         end
  end.

(** The other visibility state. *)
Definition flipped (s : VisibilityState) : VisibilityState :=
  match s with
  | Visible => Hidden
  | Hidden => Visible
  end.

(** * Facts *)

Global Instance PromptSystem_prompt : Prompt PromptWindow.
Proof. split; reflexivity. Defined.

Global Instance PromptSystem_honours : HonoursHidden PromptWindow.
Proof. intros ? ?. reflexivity. Defined.

Section Facts.
Context {W : Type} `{WindowSystem W}.
Implicit Types (a : App W) (w : W) (i : nat).

(** ** The monad and the primitives *)


Lemma exec_seq {A B} (m : M (App W) A) (k : M (App W) B) a a' :
  exec m a = Some a' -> exec (bind m (fun _ => k)) a = exec k a'.
Proof.
  unfold exec, bind. destruct (m a) as [[x a1]|]; [|discriminate].
  now intros [= ->].
Qed.

Lemma overlay_at a i w : at_overlay a i w -> overlay a = Some w.
Proof. intros [Hp Hw]. unfold overlay. now rewrite Hp. Qed.

Lemma at_overlay_called a i w c w' :
  at_overlay a i w -> at_overlay (called i c w' a) i w'.
Proof.
  intros [Hp Hw]. split; [exact Hp|]. simpl.
  apply list_lookup_insert_eq. eapply lookup_lt_Some, Hw.
Qed.

Lemma at_overlay_printed a i w l :
  at_overlay a i w -> at_overlay (printed l a) i w.
Proof. intros [Hp Hw]. split; assumption. Qed.

Lemma via_method {A} (c : Call) (f : W -> W) (q : W -> A) a i w :
  at_overlay a i w ->
  via (method c f q) a = Some (q w, called i c (f w) a).
Proof. intros [Hp Hw]. unfold via, method. now rewrite Hp, Hw. Qed.


Lemma commands_after_app a a' (l : list (nat * Call)) :
  calls a' = calls a ++ l ->
  commands_after (length (calls a)) a'
  = filter (fun c => is_command c = true) (snd <$> l).
Proof.
  intros Hc. unfold commands_after. now rewrite Hc, drop_app_length.
Qed.

(** ** What each callback does to the overlay *)

Lemma onWindowLostFocus_step a i w :
  at_overlay a i w ->
  exists a', onWindowLostFocus a = Some (tt, a') /\
             overlay_step a i [CHide] (os_hide w) a'.
Proof.
  intros Ha. eexists. split.
  - unfold onWindowLostFocus, Hide. now rewrite (via_method _ _ _ _ _ _ Ha).
  - split; [eapply at_overlay_called, Ha|].
    repeat split; simpl; try reflexivity. rewrite length_insert. lia.
Qed.

Lemma onKeydown_step a i w :
  at_overlay a i w ->
  exists a', onKeydown a = Some (tt, a') /\
    overlay_step a i
      (if os_visible w then [CIsVisible; CHide; CIsFocused]
       else [CIsVisible; CShow; CFocus; CIsFocused])
      (if os_visible w then os_hide w else os_focus (os_show w)) a'.
Proof.
  intros Ha.
  pose proof (at_overlay_called _ _ _ CIsVisible w Ha) as H1.
  unfold onKeydown, bind, IsVisible.
  rewrite (via_method _ _ _ _ _ _ Ha). unfold id at 1.
  destruct (os_visible w).
  - pose proof (at_overlay_called _ _ _ CHide (os_hide w) H1) as H2.
    pose proof (at_overlay_called _ _ _ CIsFocused (os_hide w) H2) as H3.
    unfold Hide, IsFocused.
    rewrite (via_method _ _ _ _ _ _ H1), (via_method _ _ _ _ _ _ H2).
    eexists. split; [reflexivity|]. unfold id.
    split; [exact H3|].
    repeat split; simpl; try reflexivity.
    + now rewrite <- !app_assoc.
    + rewrite !length_insert. lia.
  - pose proof (at_overlay_called _ _ _ CShow (os_show w) H1) as H2.
    pose proof (at_overlay_called _ _ _ CFocus (os_focus (os_show w)) H2)
      as H3.
    pose proof (at_overlay_called _ _ _ CIsFocused (os_focus (os_show w)) H3)
      as H4.
    unfold Show, Focus, IsFocused.
    rewrite (via_method _ _ _ _ _ _ H1), (via_method _ _ _ _ _ _ H2),
      (via_method _ _ _ _ _ _ H3).
    eexists. split; [reflexivity|]. unfold id.
    split; [exact H4|].
    repeat split; simpl; try reflexivity.
    + now rewrite <- !app_assoc.
    + rewrite !length_insert. lia.
Qed.

Lemma snd_pair_fmap i (cs : list Call) : snd <$> (pair i <$> cs) = cs.
Proof. induction cs as [|c cs IH]; simpl; [reflexivity|]. now f_equal. Qed.

Lemma issued_step e a a' i cs w' :
  exec (deliver e) a = Some a' ->
  overlay_step a i cs w' a' ->
  issued e a = Some (filter (fun c => is_command c = true) cs).
Proof.
  intros He (_ & Hc & _). unfold issued. rewrite He. simpl.
  now rewrite (commands_after_app _ _ _ Hc), snd_pair_fmap.
Qed.

Lemma deliver_Keydown a i w :
  at_overlay a i w -> listening a = true ->
  exists a', exec (deliver Keydown) a = Some a' /\
    overlay_step a i
      (if os_visible w then [CIsVisible; CHide; CIsFocused]
       else [CIsVisible; CShow; CFocus; CIsFocused])
      (if os_visible w then os_hide w else os_focus (os_show w)) a'.
Proof.
  intros Ha Hl. destruct (onKeydown_step a i w Ha) as (a' & Hk & Hs).
  exists a'. split; [|exact Hs].
  unfold exec, deliver. now rewrite Hl, Hk.
Qed.

Lemma deliver_WindowLostFocus a i w :
  at_overlay a i w ->
  exists a', exec (deliver (WindowLostFocus i)) a = Some a' /\
             overlay_step a i [CHide] (os_hide w) a'.
Proof.
  intros Ha. destruct (onWindowLostFocus_step a i w Ha) as (a' & Hk & Hs).
  exists a'. split; [|exact Hs].
  unfold exec, deliver. destruct Ha as [Hp _].
  destruct (decide (window a = Some i)) as [_|Hn]; [|contradiction].
  now rewrite Hk.
Qed.

Lemma deliver_escape a i w :
  at_overlay a i w ->
  exists a', exec (deliver (KeyPressed i "escape")) a = Some a' /\
             overlay_step a i [CHide] (os_hide w) a'.
Proof.
  intros Ha. eexists. split.
  - unfold exec, deliver, binding. destruct Ha as [Hp Hw].
    destruct (decide (window a = Some i)) as [_|Hn]; [|contradiction].
    simpl. rewrite Hw. reflexivity.
  - split; [eapply at_overlay_called, Ha|].
    repeat split; simpl; try reflexivity. rewrite length_insert. lia.
Qed.


Lemma exec_Run_cons e evs a a' :
  exec (deliver e) a = Some a' ->
  exec (Run (e :: evs)) a = exec (Run evs) a'.
Proof. intros He. simpl. now apply exec_seq. Qed.

Lemma visibility_hide `{!Prompt W} w : visibility (os_hide w) = Hidden.
Proof. unfold visibility. now rewrite visible_hide. Qed.

Lemma visibility_show_focus `{!Prompt W} w :
  visibility (os_focus (os_show w)) = Visible.
Proof. unfold visibility. now rewrite visible_focus, visible_show. Qed.




Lemma commands_step a i cs w' a' :
  overlay_step a i cs w' a' ->
  commands_after (length (calls a)) a'
  = filter (fun c => is_command c = true) cs.
Proof.
  intros (_ & Hc & _).
  now rewrite (commands_after_app _ _ _ Hc), snd_pair_fmap.
Qed.



(** The menu item opens a window and leaves everything else alone. *)
Lemma deliver_hello a :
  exec (deliver (MenuClicked "Hello World!")) a
  = Some {| windows := windows a ++ [os_create (@helloOptions W)];
            window := window a; listening := listening a;
            calls := calls a; logged := logged a; exited := exited a |}.
Proof. reflexivity. Qed.

(** While the hotkey loop is not running, whatever happens leaves the
    overlay in place, the process alive, and calls nothing but [hide()]. *)
Lemma deliver_without_loop e a i w :
  at_overlay a i w -> listening a = false ->
  exists a' w',
    exec (deliver e) a = Some a' /\ at_overlay a' i w' /\
    listening a' = false /\ exited a' = exited a /\
    logged a' = logged a /\
    (calls a' = calls a \/ calls a' = calls a ++ [(i, CHide)]).
Proof.
  intros Ha Hl.
  assert (Hsame : exists a' w', Some a = Some a' /\ at_overlay a' i w' /\
            listening a' = false /\ exited a' = exited a /\
            logged a' = logged a /\
            (calls a' = calls a \/ calls a' = calls a ++ [(i, CHide)])).
  { exists a, w. repeat split; try assumption; try apply Ha. now left. }
  assert (Hhide : forall a', overlay_step a i [CHide] (os_hide w) a' ->
            at_overlay a' i (os_hide w) /\
            listening a' = false /\ exited a' = exited a /\
            calls a' = calls a ++ [(i, CHide)]).
  { intros a' (H1 & H2 & H3 & H4 & _).
    split; [exact H1|]. split; [congruence|]. split; [exact H4|exact H2]. }
  destruct e as [|j|j key|label].
  - unfold exec, deliver. rewrite Hl. exact Hsame.
  - unfold exec, deliver.
    destruct (decide (window a = Some j)) as [Hj|Hj]; [|exact Hsame].
    assert (j = i) as -> by (destruct Ha; congruence).
    destruct (onWindowLostFocus_step a i w Ha) as (a' & Hk & Hs).
    rewrite Hk. exists a', (os_hide w).
    destruct (Hhide a' Hs) as (Ha' & Hl' & Hx' & Hc').
    split; [reflexivity|]. split; [exact Ha'|].
    split; [exact Hl'|]. split; [exact Hx'|]. split; [|now right].
    unfold onWindowLostFocus, via, Hide, method in Hk.
    destruct Ha as [Hp Hw]. rewrite Hp, Hw in Hk. now injection Hk as <-.
  - unfold exec, deliver, binding.
    destruct (decide (window a = Some j)) as [Hj|Hj]; [|exact Hsame].
    assert (j = i) as -> by (destruct Ha; congruence).
    simpl. destruct (decide ("escape" = key)) as [<-|Hk]; [|exact Hsame].
    destruct Ha as [Hp Hw]. unfold Hide, method. rewrite Hw.
    exists (called i CHide (os_hide w) a), (os_hide w).
    repeat split; try assumption.
    + apply list_lookup_insert_eq. eapply lookup_lt_Some, Hw.
    + now right.
  - unfold exec, deliver.
    destruct (decide (label = "Hello World!")) as [_|_]; [|exact Hsame].
    simpl. eexists. exists w. split; [reflexivity|].
    repeat split; simpl; try assumption; try apply Ha.
    + apply lookup_app_l_Some, Ha.
    + now left.
Qed.

Lemma Run_without_loop evs : forall a i w,
  at_overlay a i w -> listening a = false ->
  exists a' w' k,
    exec (Run evs) a = Some a' /\ at_overlay a' i w' /\
    listening a' = false /\ exited a' = exited a /\
    logged a' = logged a /\
    calls a' = calls a ++ replicate k (i, CHide).
Proof.
  induction evs as [|e evs IH]; intros a i w Ha Hl.
  - exists a, w, 0%nat. simpl. rewrite app_nil_r.
    split; [reflexivity|]. split; [exact Ha|]. now repeat split.
  - destruct (deliver_without_loop e a i w Ha Hl)
      as (a1 & w1 & He & Ha1 & Hl1 & Hx1 & Hg1 & Hc1).
    destruct (IH a1 i w1 Ha1 Hl1) as (a' & w' & k & Hr & Ha' & Hl' & Hx' & Hg' & Hc').
    rewrite (exec_Run_cons _ _ _ _ He).
    destruct Hc1 as [Hc1|Hc1].
    + exists a', w', k. repeat split; try assumption; try apply Ha'; congruence.
    + exists a', w', (S k).
      repeat split; try assumption; try apply Ha'; try congruence.
      rewrite Hc', Hc1, <- app_assoc. reflexivity.
Qed.

(** With a window system that acts at once, the program and the table of
    the specification take the same action at every hotkey press. *)
Lemma code_follows_table `{!Prompt W} evs : forall a i w,
  at_overlay a i w -> listening a = true ->
  exists acts,
    code_actions evs a = Some acts /\
    hotkey_only acts = hotkey_only (spec_actions (visibility w) evs).
Proof.
  induction evs as [|e evs IH]; intros a i w Ha Hl.
  - exists []. split; reflexivity.
  - destruct e.
    + destruct (deliver_Keydown a i w Ha Hl) as (a1 & He & Hs).
      assert (Hl1 : listening a1 = true)
        by (destruct Hs as (_ & _ & -> & _); exact Hl).
      destruct (IH a1 i _ (proj1 Hs) Hl1) as (acts & Hacts & Hsame).
      simpl. rewrite He, Hacts. simpl. eexists. split; [reflexivity|].
      rewrite (commands_step _ _ _ _ _ Hs). simpl.
      rewrite Hsame.
      change (visibility w) with (if os_visible w then Visible else Hidden).
      destruct (os_visible w); simpl.
      * now rewrite visibility_hide.
      * now rewrite visibility_show_focus.
    + destruct (deliver_WindowLostFocus a i w Ha) as (a1 & He & Hs).
      assert (Hl1 : listening a1 = true)
        by (destruct Hs as (_ & _ & -> & _); exact Hl).
      destruct (IH a1 i _ (proj1 Hs) Hl1) as (acts & Hacts & Hsame).
      simpl. replace (default 0%nat (window a)) with i
        by (destruct Ha as [-> _]; reflexivity).
      rewrite He, Hacts. simpl. eexists. split; [reflexivity|].
      simpl. rewrite Hsame, visibility_hide.
      unfold visibility. now destruct (os_visible w).
Qed.

Lemma exec_then_ret {A} (m : M (App W) A) a :
  exec (bind m (fun _ => ret tt)) a = exec m a.
Proof. unfold exec, bind, ret. now destruct (m a) as [[x a']|]. Qed.

(** What a hotkey press makes the program issue. *)
Lemma issued_Keydown a i w :
  at_overlay a i w -> listening a = true ->
  issued Keydown a = Some (if os_visible w then [CHide] else [CShow; CFocus]).
Proof.
  intros Ha Hl. destruct (deliver_Keydown a i w Ha Hl) as (a' & He & Hs).
  rewrite (issued_step _ _ _ _ _ _ He Hs). now destruct (os_visible w).
Qed.

(** ** The two goroutines *)

Lemma loop_step_move pc a i w :
  at_overlay a i w ->
  exists a', loop_step pc a = Some ((loop_move pc w).1, a') /\
             at_overlay a' i (loop_move pc w).2 /\
             calls a' = calls a ++ (pair i <$> loop_call pc).
Proof.
  intros Ha. destruct pc; simpl; unfold bind.
  - unfold IsVisible. rewrite (via_method _ _ _ _ _ _ Ha).
    eexists. split; [reflexivity|].
    split; [eapply at_overlay_called, Ha|reflexivity].
  - unfold Hide. rewrite (via_method _ _ _ _ _ _ Ha).
    eexists. split; [reflexivity|].
    split; [eapply at_overlay_called, Ha|reflexivity].
  - unfold Show. rewrite (via_method _ _ _ _ _ _ Ha).
    eexists. split; [reflexivity|].
    split; [eapply at_overlay_called, Ha|reflexivity].
  - unfold Focus. rewrite (via_method _ _ _ _ _ _ Ha).
    eexists. split; [reflexivity|].
    split; [eapply at_overlay_called, Ha|reflexivity].
  - unfold IsFocused. rewrite (via_method _ _ _ _ _ _ Ha).
    eexists. split; [reflexivity|].
    split; [eapply at_overlay_printed, at_overlay_called, Ha|reflexivity].
  - exists a. split; [reflexivity|]. split; [exact Ha|].
    now rewrite app_nil_r.
Qed.

Lemma listener_step_move a i w :
  at_overlay a i w ->
  exists a', listener_step AtCall a = Some (AtReturn, a') /\
             at_overlay a' i (os_hide w) /\
             calls a' = calls a ++ [(i, CHide)].
Proof.
  intros Ha. simpl. unfold bind, Hide. rewrite (via_method _ _ _ _ _ _ Ha).
  eexists. split; [reflexivity|].
  split; [eapply at_overlay_called, Ha|reflexivity].
Qed.

Lemma sched_step_move g l f a i w c :
  at_overlay a i w -> sched_step g (l, f, a) = Some c ->
  exists w', sched_move g (l, f, w) = Some (c.1.1, c.1.2, w') /\
             at_overlay c.2 i w'.
Proof.
  intros Ha Hc. destruct g; simpl in *.
  - destruct (loop_step_move l a i w Ha) as (a' & Hs & Ha' & _).
    destruct l; try discriminate; rewrite Hs in Hc; injection Hc as <-;
      eexists; (split; [reflexivity|exact Ha']).
  - destruct f; [|discriminate].
    destruct (listener_step_move a i w Ha) as (a' & Hs & Ha' & _).
    rewrite Hs in Hc. injection Hc as <-.
    eexists. split; [reflexivity|exact Ha'].
Qed.

Lemma schedule_moves gs : forall l f a i w c,
  at_overlay a i w -> schedule gs (l, f, a) = Some c ->
  exists w', moves gs (l, f, w) = Some (c.1.1, c.1.2, w') /\
             at_overlay c.2 i w'.
Proof.
  induction gs as [|g gs IH]; intros l f a i w c Ha Hc.
  - injection Hc as <-. exists w. split; [reflexivity|exact Ha].
  - cbn [schedule] in Hc.
    destruct (sched_step g (l, f, a)) as [[[l1 f1] a1]|] eqn:Hg;
      [|discriminate].
    destruct (sched_step_move _ _ _ _ _ _ _ Ha Hg) as (w1 & Hm & Ha1).
    destruct (IH _ _ _ _ _ _ Ha1 Hc) as (w' & Hms & Ha').
    exists w'. split; [|exact Ha'].
    cbn [moves]. rewrite Hm. exact Hms.
Qed.










End Facts.

(** ** The transitions *)



(** C3, as the program has it: a loss of focus while the overlay is hidden
    still calls [hide()] on it, once, and nothing else; the overlay stays
    hidden. *)
Theorem focus_lost_when_hidden {W} `{Prompt W} (a : App W) (i : nat)
    (w : W) :
  at_overlay a i w -> visibility w = Hidden ->
  exists a' w',
    exec (deliver (WindowLostFocus i)) a = Some a' /\
    calls a' = calls a ++ [(i, CHide)] /\
    issued (WindowLostFocus i) a = Some [CHide] /\
    at_overlay a' i w' /\ visibility w' = Hidden.
Proof.
  intros Ha _. destruct (deliver_WindowLostFocus a i w Ha) as (a' & He & Hs).
  pose proof (issued_step _ _ _ _ _ _ He Hs) as Hi.
  destruct Hs as (Ha' & Hc & _).
  exists a', (os_hide w). repeat split; try assumption; try apply Ha'.
  apply visibility_hide.
Qed.

Lemma focus_lost_when_hidden_witness :
  visibility hidden_window = Hidden /\
  exists a' w',
    exec (deliver (WindowLostFocus 0)) (started hidden_window) = Some a' /\
    calls a' = [(0, CHide)] /\
    issued (WindowLostFocus 0) (started hidden_window) = Some [CHide] /\
    at_overlay a' 0 w' /\ visibility w' = Hidden.
Proof.
  split; [reflexivity|].
  exact (focus_lost_when_hidden (started hidden_window) 0 hidden_window
           (conj eq_refl eq_refl) eq_refl).
Defined.

(** C3 as the specification states it fails: with the overlay hidden, the
    focus listener makes one call, [hide()]. *)
Lemma focus_lost_when_hidden_calls_hide :
  visibility hidden_window = Hidden /\
  issued (WindowLostFocus 0) (started hidden_window) = Some [CHide] /\
  issued (WindowLostFocus 0) (started hidden_window) <> Some [].
Proof. split; [reflexivity|]. split; [reflexivity|]. discriminate. Qed.






(** C10: the Escape key pressed in the overlay calls [hide()] on it and
    nothing else, whether or not the hotkey loop runs; the overlay is hidden
    afterwards. *)
Theorem escape_hides {W} `{Prompt W} (a : App W) (i : nat) (w : W) :
  at_overlay a i w ->
  exists a' w',
    exec (deliver (KeyPressed i "escape")) a = Some a' /\
    calls a' = calls a ++ [(i, CHide)] /\
    issued (KeyPressed i "escape") a = Some [CHide] /\
    at_overlay a' i w' /\ visibility w' = Hidden.
Proof.
  intros Ha. destruct (deliver_escape a i w Ha) as (a' & He & Hs).
  pose proof (issued_step _ _ _ _ _ _ He Hs) as Hi.
  destruct Hs as (Ha' & Hc & _).
  exists a', (os_hide w). repeat split; try assumption; try apply Ha'.
  apply visibility_hide.
Qed.

Lemma escape_hides_witness :
  at_overlay (without_hotkey (mkPrompt true true)) 0 (mkPrompt true true) /\
  exists a' w',
    exec (deliver (KeyPressed 0 "escape")) (without_hotkey (mkPrompt true true))
    = Some a' /\
    calls a' = [(0, CHide)] /\
    issued (KeyPressed 0 "escape") (without_hotkey (mkPrompt true true))
    = Some [CHide] /\
    at_overlay a' 0 w' /\ visibility w' = Hidden.
Proof.
  split; [split; reflexivity|].
  exact (escape_hides (without_hotkey (mkPrompt true true)) 0
           (mkPrompt true true) (conj eq_refl eq_refl)).
Defined.

(** ** The tray menu *)

(** C8: [n] activations of the menu item open [n] new windows; the overlay
    is left as it was and no method of any window is called. *)
Theorem tray_spawns_independent_windows {W} `{WindowSystem W} (n : nat)
    (a : App W) (i : nat) (w : W) :
  at_overlay a i w ->
  exists a',
    exec (Run (replicate n (MenuClicked "Hello World!"))) a = Some a' /\
    windows a' = windows a ++ replicate n (os_create (@helloOptions W)) /\
    length (windows a') = (length (windows a) + n)%nat /\
    window a' = window a /\ at_overlay a' i w /\
    calls a' = calls a /\ commands_after (length (calls a)) a' = [].
Proof.
  revert a. induction n as [|n IH]; intros a Ha.
  - exists a. simpl. rewrite app_nil_r, Nat.add_0_r.
    repeat split; try apply Ha. unfold commands_after.
    now rewrite drop_all.
  - pose proof (deliver_hello a) as He.
    set (a1 := {| windows := windows a ++ [os_create (@helloOptions W)];
                  window := window a; listening := listening a;
                  calls := calls a; logged := logged a;
                  exited := exited a |}) in He.
    assert (Ha1 : at_overlay a1 i w).
    { split; [apply Ha|]. simpl. apply lookup_app_l_Some, Ha. }
    destruct (IH a1 Ha1) as (a' & Hr & Hw & Hn & Hp & Ha' & Hc & Hk).
    exists a'. change (replicate (S n) ?x) with (x :: replicate n x).
    rewrite (exec_Run_cons _ _ _ _ He).
    split; [exact Hr|]. split; [|split; [|split; [|split; [|split]]]].
    + rewrite Hw. simpl. now rewrite <- app_assoc.
    + rewrite Hn. simpl. rewrite length_app. simpl. lia.
    + exact Hp.
    + exact Ha'.
    + exact Hc.
    + exact Hk.
Qed.

Lemma tray_spawns_independent_windows_witness :
  at_overlay (started (mkPrompt true true)) 0 (mkPrompt true true) /\
  exists a',
    exec (Run (replicate 100 (MenuClicked "Hello World!")))
      (started (mkPrompt true true)) = Some a' /\
    windows a'
    = [mkPrompt true true]
      ++ replicate 100 (os_create (@helloOptions PromptWindow)) /\
    length (windows a') = (1 + 100)%nat /\
    window a' = Some 0 /\ at_overlay a' 0 (mkPrompt true true) /\
    calls a' = [] /\ commands_after 0 a' = [].
Proof.
  split; [split; reflexivity|].
  exact (tray_spawns_independent_windows 100 (started (mkPrompt true true)) 0
           (mkPrompt true true) (conj eq_refl eq_refl)).
Defined.

(** ** Start-up *)

(** C6, as the program has it: the overlay is created with [Hidden] left
    false, so under a window system that honours the option it is on screen
    once the application runs, before any event. *)
Theorem overlay_starts_visible {W} `{HonoursHidden W}
    (register : option string) :
  application.Hidden (@overlayOptions W _) = false /\
  exists a w,
    exec (main register [] None) boot = Some a /\
    at_overlay a 0 w /\ calls a = [] /\ visibility w = Visible.
Proof.
  split; [reflexivity|].
  destruct register as [err|]; eexists; eexists;
    (split; [reflexivity|]); (split; [split; reflexivity|]);
    (split; [reflexivity|]); unfold visibility; now rewrite visible_create.
Qed.

Lemma overlay_starts_visible_witness :
  application.Hidden (@overlayOptions PromptWindow _) = false /\
  exists a w,
    exec (main None [] None) boot = Some a /\
    at_overlay a 0 w /\ calls a = [] /\ visibility (w : PromptWindow) = Visible.
Proof. exact (overlay_starts_visible None). Defined.

(** C6 as the specification states it fails: before any event the overlay
    is not hidden. *)
Lemma overlay_does_not_start_hidden :
  (overlay_visibility <$> exec (main None [] None) (@boot PromptWindow))
  = Some (Some Visible) /\
  (overlay_visibility <$> exec (main None [] None) (@boot PromptWindow))
  <> Some (Some Hidden).
Proof. split; [reflexivity|discriminate]. Qed.

(** C7: when the hotkey cannot be registered, [main] neither panics nor
    exits whatever happens afterwards; the error is logged, the loop is
    never started, a hotkey press does nothing, and a loss of focus still
    hides the overlay. *)
Theorem registration_failure_is_isolated {W} `{Prompt W} (err : string)
    (evs : list Event) :
  exists a w k,
    exec (main (Some err) evs None) boot = Some a /\
    exited a = None /\ listening a = false /\ logged a = [LogErr err] /\
    at_overlay a 0 w /\ calls a = replicate k (0%nat, CHide) /\
    exec (deliver Keydown) a = Some a /\ issued Keydown a = Some [] /\
    exists a' w',
      exec (deliver (WindowLostFocus 0)) a = Some a' /\
      issued (WindowLostFocus 0) a = Some [CHide] /\
      at_overlay a' 0 w' /\ visibility w' = Hidden /\ exited a' = None.
Proof.
  set (a0 := {| windows := [os_create (@overlayOptions W _)];
                window := Some 0%nat; listening := false; calls := [];
                logged := [LogErr err]; exited := None |}).
  change (exec (main (Some err) evs None) boot)
    with (exec (bind (Run evs) (fun _ => ret tt)) a0).
  rewrite exec_then_ret.
  assert (Ha0 : at_overlay a0 0 (os_create (@overlayOptions W _)))
    by (split; reflexivity).
  destruct (Run_without_loop evs a0 0 _ Ha0 eq_refl)
    as (a & w & k & Hr & Ha & Hl & Hx & Hg & Hc).
  destruct (deliver_WindowLostFocus a 0 w Ha) as (a' & He & Hs).
  exists a, w, k. split; [exact Hr|]. split; [exact Hx|].
  split; [exact Hl|]. split; [exact Hg|]. split; [exact Ha|].
  split; [exact Hc|]. split; [|split].
  - unfold exec, deliver. now rewrite Hl.
  - unfold issued, exec, deliver. rewrite Hl. simpl.
    unfold commands_after. now rewrite drop_all.
  - exists a', (os_hide w). split; [exact He|].
    split; [exact (issued_step _ _ _ _ _ _ He Hs)|].
    split; [exact (proj1 Hs)|]. split; [apply visibility_hide|].
    destruct Hs as (_ & _ & _ & -> & _). exact Hx.
Qed.

Lemma registration_failure_is_isolated_witness :
  exists (a : App PromptWindow) w k,
    exec (main (Some "hotkey already registered")
            [Keydown; MenuClicked "Hello World!"; WindowLostFocus 0; Keydown]
            None) boot = Some a /\
    exited a = None /\ listening a = false /\
    logged a = [LogErr "hotkey already registered"] /\
    at_overlay a 0 w /\ calls a = replicate k (0%nat, CHide) /\
    exec (deliver Keydown) a = Some a /\ issued Keydown a = Some [] /\
    exists a' w',
      exec (deliver (WindowLostFocus 0)) a = Some a' /\
      issued (WindowLostFocus 0) a = Some [CHide] /\
      at_overlay a' 0 w' /\ visibility w' = Hidden /\ exited a' = None.
Proof.
  exact (registration_failure_is_isolated "hotkey already registered"
           [Keydown; MenuClicked "Hello World!"; WindowLostFocus 0; Keydown]).
Defined.

(** ** What decides the transition of a hotkey press *)

(** C1, as the program has it: the transition of a hotkey press is the one
    the table gives for the state [IsVisible] reports at that moment, and for
    no other state; with a window system that acts at once this is the
    table's own choice along every event sequence. *)
Theorem hotkey_decided_by_IsVisible {W} `{WindowSystem W} (a : App W)
    (i : nat) (w : W) :
  at_overlay a i w -> listening a = true ->
  issued Keydown a = Some (if os_visible w then [CHide] else [CShow; CFocus])
  /\ (forall s, issued Keydown a = Some (spec_transition s HotkeyPressed).1
                <-> visibility w = s)
  /\ (Prompt W -> forall evs,
        hotkey_only <$> code_actions evs a
        = Some (hotkey_only (spec_actions (visibility w) evs))).
Proof.
  intros Ha Hl. pose proof (issued_Keydown a i w Ha Hl) as Hi.
  split; [exact Hi|]. split.
  - intros s. rewrite Hi. unfold visibility.
    destruct s, (os_visible w); simpl; split; congruence.
  - intros HP evs.
    destruct (code_follows_table evs a i w Ha Hl) as (acts & -> & <-).
    reflexivity.
Qed.

Lemma hotkey_decided_by_IsVisible_witness :
  at_overlay (started hidden_window) 0 hidden_window /\
  issued Keydown (started hidden_window) = Some [CShow; CFocus]
  /\ (forall s, issued Keydown (started hidden_window)
                = Some (spec_transition s HotkeyPressed).1
                <-> visibility hidden_window = s)
  /\ (Prompt PromptWindow -> forall evs,
        hotkey_only <$> code_actions evs (started hidden_window)
        = Some (hotkey_only (spec_actions Hidden evs))).
Proof.
  split; [split; reflexivity|].
  exact (hotkey_decided_by_IsVisible (started hidden_window) 0 hidden_window
           (conj eq_refl eq_refl) eq_refl).
Defined.

(** C1 as the specification states it fails: when [IsVisible] still reports
    the overlay hidden at the second press, the program shows it again where
    the state machine, tracking its own state, hides it. *)
Lemma stale_IsVisible_shows_twice :
  visibility lagging_hidden = Hidden /\
  hotkey_only
    <$> code_actions [HotkeyPressed; HotkeyPressed] (started lagging_hidden)
  = Some [[CShow; CFocus]; [CShow; CFocus]] /\
  hotkey_only (spec_actions Hidden [HotkeyPressed; HotkeyPressed])
  = [[CShow; CFocus]; [CHide]] /\
  hotkey_only
    <$> code_actions [HotkeyPressed; HotkeyPressed] (started lagging_hidden)
  <> Some (hotkey_only (spec_actions Hidden [HotkeyPressed; HotkeyPressed])).
Proof.
  split; [reflexivity|]. split; [reflexivity|]. split; [reflexivity|].
  discriminate.
Qed.

(** ** The hotkey loop and the focus listener side by side *)




(** * Beyond the transitions: whole runs of [main] *)

Section Runs.
Context {W : Type} `{WindowSystem W}.
Implicit Types (a : App W) (w : W) (i : nat).

Ltac run_call Ha :=
  unfold bind, IsVisible, Hide, Show, Focus, IsFocused;
  rewrite !(via_method _ _ _ _ _ _ Ha); unfold id, ret.

Lemma frame_same a i w : at_overlay a i w -> run_frame a i w [] 0 [] a.
Proof.
  intros Ha. split; [exact Ha|]. repeat split; simpl.
  - now rewrite app_nil_r.
  - rewrite app_nil_r. symmetry. apply list_insert_id, Ha.
  - now rewrite app_nil_r.
Qed.

Lemma frame_hide a i w :
  at_overlay a i w ->
  run_frame a i (os_hide w) [CHide] 0 [] (called i CHide (os_hide w) a).
Proof.
  intros Ha. split; [eapply at_overlay_called, Ha|]. repeat split; simpl.
  - now rewrite app_nil_r.
  - now rewrite app_nil_r.
Qed.

Lemma frame_trans a i w w1 cs1 k1 ls1 a1 w2 cs2 k2 ls2 a2 :
  at_overlay a i w ->
  run_frame a i w1 cs1 k1 ls1 a1 -> run_frame a1 i w2 cs2 k2 ls2 a2 ->
  run_frame a i w2 (cs1 ++ cs2) (k1 + k2) (ls1 ++ ls2) a2.
Proof.
  intros [_ Hw] (_ & Hl1 & Hx1 & Hc1 & Hw1 & Hg1)
    (Ha2 & Hl2 & Hx2 & Hc2 & Hw2 & Hg2).
  split; [exact Ha2|]. repeat split.
  - congruence.
  - congruence.
  - now rewrite Hc2, Hc1, fmap_app, app_assoc.
  - rewrite Hw2, Hw1, insert_app_l
      by (rewrite length_insert; eapply lookup_lt_Some, Hw).
    now rewrite list_insert_insert_eq, <- app_assoc, replicate_add.
  - now rewrite Hg2, Hg1, fmap_app, app_assoc.
Qed.

(** One turn of the hotkey loop: the calls on the overlay, the overlay
    afterwards, and the one line it logs. *)
Lemma onKeydown_frame a i w :
  at_overlay a i w ->
  exists a', onKeydown a = Some (tt, a') /\
    run_frame a i
      (if os_visible w then os_hide w else os_focus (os_show w))
      (if os_visible w then [CIsVisible; CHide; CIsFocused]
       else [CIsVisible; CShow; CFocus; CIsFocused])
      0
      [os_focused (if os_visible w then os_hide w else os_focus (os_show w))]
      a'.
Proof.
  intros Ha.
  pose proof (at_overlay_called _ _ _ CIsVisible w Ha) as H1.
  destruct (os_visible w) eqn:Hv.
  - pose proof (at_overlay_called _ _ _ CHide (os_hide w) H1) as H2.
    pose proof (at_overlay_called _ _ _ CIsFocused (os_hide w) H2) as H3.
    eexists. split.
    + unfold onKeydown. run_call Ha. rewrite Hv. run_call H1. run_call H2.
      reflexivity.
    + split; [exact H3|]. repeat split; simpl.
      * now rewrite <- !app_assoc.
      * now rewrite !list_insert_insert_eq, app_nil_r.
  - pose proof (at_overlay_called _ _ _ CShow (os_show w) H1) as H2.
    pose proof (at_overlay_called _ _ _ CFocus (os_focus (os_show w)) H2)
      as H3.
    pose proof (at_overlay_called _ _ _ CIsFocused (os_focus (os_show w)) H3)
      as H4.
    eexists. split.
    + unfold onKeydown. run_call Ha. rewrite Hv. run_call H1. run_call H2.
      run_call H3. reflexivity.
    + split; [exact H4|]. repeat split; simpl.
      * now rewrite <- !app_assoc.
      * now rewrite !list_insert_insert_eq, app_nil_r.
Qed.

(** What one event does to the process, whatever the event. *)
Lemma deliver_frame e a i w :
  at_overlay a i w ->
  exists a' w' cs ls,
    exec (deliver e) a = Some a' /\
    run_frame a i w' cs (hello_clicks [e]) ls a' /\
    length ls = (if listening a then presses [e] else 0).
Proof.
  intros Ha.
  assert (Hz : (if listening a then 0 else 0) = 0)
    by now destruct (listening a).
  assert (Hsame : exists a' w' cs ls,
            Some a = Some a' /\ run_frame a i w' cs 0 ls a' /\
            length ls = 0).
  { exists a, w, [], []. split; [reflexivity|].
    split; [exact (frame_same a i w Ha)|reflexivity]. }
  assert (Hhide : exists a' w' cs ls,
            Some (called i CHide (os_hide w) a) = Some a' /\
            run_frame a i w' cs 0 ls a' /\ length ls = 0).
  { eexists _, _, _, []. split; [reflexivity|].
    split; [exact (frame_hide a i w Ha)|reflexivity]. }
  destruct e as [|j|j key|label]; cbn [hello_clicks presses].
  - unfold exec, deliver. destruct (listening a) eqn:Hl.
    + destruct (onKeydown_frame a i w Ha) as (a' & Hk & Hf).
      rewrite Hk. eexists a', _, _, _. split; [reflexivity|].
      split; [exact Hf|reflexivity].
    + exact Hsame.
  - rewrite Hz. unfold exec, deliver.
    destruct (decide (window a = Some j)) as [Hj|Hj]; [|exact Hsame].
    assert (j = i) as -> by (destruct Ha; congruence).
    unfold onWindowLostFocus, Hide. rewrite (via_method _ _ _ _ _ _ Ha).
    exact Hhide.
  - rewrite Hz. unfold exec, deliver, binding.
    destruct (decide (window a = Some j)) as [Hj|Hj]; [|exact Hsame].
    assert (j = i) as -> by (destruct Ha; congruence).
    cbn [application.KeyBindings overlayOptions bound].
    destruct (decide ("escape" = key)) as [_|_]; [|exact Hsame].
    unfold Hide, method. destruct Ha as [Hp Hw]. rewrite Hw.
    exact Hhide.
  - rewrite Hz. unfold exec, deliver.
    destruct (decide (label = "Hello World!")) as [_|_]; [|exact Hsame].
    eexists _, w, [], []. split; [reflexivity|]. split; [|reflexivity].
    split; [split; [apply Ha|apply lookup_app_l_Some, Ha]|].
    repeat split; simpl.
    + now rewrite app_nil_r.
    + f_equal. symmetry. apply list_insert_id, Ha.
    + now rewrite app_nil_r.
Qed.

(** The same for a whole run of the event loop. *)
Lemma Run_frame evs : forall a i w,
  at_overlay a i w ->
  exists a' w' cs ls,
    exec (Run evs) a = Some a' /\
    run_frame a i w' cs (hello_clicks evs) ls a' /\
    length ls = (if listening a then presses evs else 0).
Proof.
  induction evs as [|e evs IH]; intros a i w Ha.
  - exists a, w, [], []. split; [reflexivity|].
    split; [exact (frame_same a i w Ha)|]. now destruct (listening a).
  - destruct (deliver_frame e a i w Ha)
      as (a1 & w1 & cs1 & ls1 & He & Hf1 & Hn1).
    destruct (IH a1 i w1 (proj1 Hf1)) as (a2 & w2 & cs2 & ls2 & Hr & Hf2 & Hn2).
    exists a2, w2, (cs1 ++ cs2), (ls1 ++ ls2).
    split; [now rewrite (exec_Run_cons _ _ _ _ He)|]. split.
    + replace (hello_clicks (e :: evs))
        with (hello_clicks [e] + hello_clicks evs)%nat.
      * exact (frame_trans _ _ _ _ _ _ _ _ _ _ _ _ _ Ha Hf1 Hf2).
      * destruct e as [| | |label]; try reflexivity.
        cbn [hello_clicks]. now destruct (decide (label = "Hello World!")).
    + rewrite length_app, Hn1, Hn2.
      destruct Hf1 as (_ & -> & _).
      destruct (listening a); [|reflexivity].
      now destruct e.
Qed.

(** [main] as a whole, for every outcome of the registration, every
    sequence of events and every result of [app.Run()]. *)
Lemma main_frame (register : option string) (evs : list Event)
    (runErr : option string) :
  exists (a : App W) w cs ls,
    exec (main register evs runErr) boot = Some a /\
    at_overlay a 0 w /\
    listening a = match register with Some _ => false | None => true end /\
    exited a = match runErr with Some _ => Some 1%Z | None => None end /\
    calls a = pair 0%nat <$> cs /\
    windows a
    = w :: replicate (hello_clicks evs) (os_create (@helloOptions W)) /\
    logged a = main_log register ls runErr /\
    length ls = match register with Some _ => 0%nat | None => presses evs end.
Proof.
  set (a0 := {| windows := [os_create (@overlayOptions W _)];
                window := Some 0%nat;
                listening := match register with
                             | Some _ => false
                             | None => true
                             end;
                calls := [];
                logged := match register with
                          | Some err => [LogErr err]
                          | None => []
                          end;
                exited := None |}).
  assert (Hstart : exec (main register evs runErr) boot
                   = exec (bind (Run evs)
                             (fun _ => match runErr with
                                       | Some err => Fatal (LogErr err)
                                       | None => ret tt
                                       end)) a0)
    by (destruct register; reflexivity).
  assert (Ha0 : at_overlay a0 0 (os_create (@overlayOptions W _)))
    by (split; reflexivity).
  destruct (Run_frame evs a0 0 _ Ha0)
    as (a & w & cs & ls & Hr & (Ha & Hl & Hx & Hc & Hw & Hg) & Hn).
  rewrite Hstart, (exec_seq _ _ _ _ Hr).
  destruct runErr as [err|]; eexists _, w, cs, ls;
    (split; [reflexivity|]); (split; [exact Ha|]);
    (split; [exact Hl|]); (split; [first [exact Hx|reflexivity]|]);
    (split; [exact Hc|]); (split; [exact Hw|]);
    unfold main_log; simpl; rewrite Hg; simpl;
    (split; [now rewrite ?app_nil_r, ?app_assoc|]);
    rewrite Hn; simpl; now destruct register.
Qed.

End Runs.

(** ** Whole runs *)


(** X2: no method of a window opened from the tray menu is ever called:
    every call is made on the overlay, and when [main] is through the
    application holds the overlay followed by one window per click on the
    menu item, each as it was created. *)
Theorem only_the_overlay_is_called {W} `{WindowSystem W}
    (register : option string) (evs : list Event) (runErr : option string) :
  exists (a : App W) w,
    exec (main register evs runErr) boot = Some a /\
    Forall (fun c => c.1 = 0%nat) (calls a) /\
    windows a
    = w :: replicate (hello_clicks evs) (os_create (@helloOptions W)).
Proof.
  destruct (main_frame register evs runErr)
    as (a & w & cs & ls & Hm & _ & _ & _ & Hc & Hw & _).
  exists a, w. split; [exact Hm|]. split; [|exact Hw].
  rewrite Hc. clear. induction cs as [|c cs IH]; constructor; auto.
Qed.


(** X4: what a hotkey press logs is the focus of the overlay after the
    toggle, not before it. *)
Theorem press_logs_focus_after_toggle {W} `{WindowSystem W} (a : App W)
    (i : nat) (w : W) :
  at_overlay a i w -> listening a = true ->
  exists a' w',
    exec (deliver Keydown) a = Some a' /\ at_overlay a' i w' /\
    w' = (if os_visible w then os_hide w else os_focus (os_show w)) /\
    logged a' = logged a ++ [LogBool (os_focused w')].
Proof.
  intros Ha Hl. destruct (onKeydown_frame a i w Ha) as (a' & Hk & Hf).
  exists a'. eexists. split; [unfold exec, deliver; now rewrite Hl, Hk|].
  destruct Hf as (Ha' & _ & _ & _ & _ & Hg).
  split; [exact Ha'|]. split; [reflexivity|exact Hg].
Qed.

Lemma press_logs_focus_after_toggle_witness :
  at_overlay (started hidden_window) 0 hidden_window /\
  exists a' w',
    exec (deliver Keydown) (started hidden_window) = Some a' /\
    at_overlay a' 0 w' /\
    w' = mkPrompt true true /\
    logged a' = [LogBool (keyed w')].
Proof.
  split; [split; reflexivity|].
  exact (press_logs_focus_after_toggle (started hidden_window) 0
           hidden_window (conj eq_refl eq_refl) eq_refl).
Defined.

(** ** How the triggers compose *)

(** X5: after a loss of focus or the Escape key, in whatever state, the
    overlay has been told to hide, and the next hotkey press shows and
    focuses it: no trigger leaves the toggle out of step. *)
Theorem hide_then_press_shows {W} `{Prompt W} (e : Event) (a : App W)
    (i : nat) (w : W) :
  at_overlay a i w -> listening a = true ->
  e = WindowLostFocus i \/ e = KeyPressed i "escape" ->
  exists a1 a2 w2,
    exec (deliver e) a = Some a1 /\ issued e a = Some [CHide] /\
    exec (deliver Keydown) a1 = Some a2 /\
    issued Keydown a1 = Some [CShow; CFocus] /\
    at_overlay a2 i w2 /\ visibility w2 = Visible.
Proof.
  intros Ha Hl He.
  assert (Hhide : exists a1, exec (deliver e) a = Some a1 /\
                    overlay_step a i [CHide] (os_hide w) a1).
  { destruct He as [-> | ->];
      [apply deliver_WindowLostFocus|apply deliver_escape]; exact Ha. }
  destruct Hhide as (a1 & He1 & Hs1).
  assert (Hl1 : listening a1 = true)
    by (destruct Hs1 as (_ & _ & -> & _); exact Hl).
  destruct (deliver_Keydown a1 i _ (proj1 Hs1) Hl1) as (a2 & He2 & Hs2).
  rewrite visible_hide in Hs2.
  exists a1, a2. eexists. split; [exact He1|].
  split; [exact (issued_step _ _ _ _ _ _ He1 Hs1)|]. split; [exact He2|].
  split; [exact (issued_step _ _ _ _ _ _ He2 Hs2)|].
  split; [exact (proj1 Hs2)|]. apply visibility_show_focus.
Qed.

Lemma hide_then_press_shows_witness :
  at_overlay (started (mkPrompt true true)) 0 (mkPrompt true true) /\
  exists a1 a2 w2,
    exec (deliver (KeyPressed 0 "escape")) (started (mkPrompt true true))
    = Some a1 /\
    issued (KeyPressed 0 "escape") (started (mkPrompt true true))
    = Some [CHide] /\
    exec (deliver Keydown) a1 = Some a2 /\
    issued Keydown a1 = Some [CShow; CFocus] /\
    at_overlay a2 0 w2 /\ visibility w2 = Visible.
Proof.
  split; [split; reflexivity|].
  exact (hide_then_press_shows (KeyPressed 0 "escape")
           (started (mkPrompt true true)) 0 (mkPrompt true true)
           (conj eq_refl eq_refl) eq_refl (or_intror eq_refl)).
Defined.

Lemma flipped_flipped (s : VisibilityState) : flipped (flipped s) = s.
Proof. now destruct s. Qed.

Lemma press_flips {W} `{Prompt W} (w : W) :
  visibility (if os_visible w then os_hide w else os_focus (os_show w))
  = flipped (visibility w).
Proof.
  unfold visibility at 2. destruct (os_visible w); simpl.
  - apply visibility_hide.
  - apply visibility_show_focus.
Qed.

Ltac count_calls :=
  repeat match goal with
         | |- context [occurrences ?c (?x :: ?l)] =>
             let v := eval vm_compute in (occurrences c (x :: l)) in
             change (occurrences c (x :: l)) with v
         end.

Lemma occurrences_app (c : Call) (l1 l2 : list Call) :
  occurrences c (l1 ++ l2) = (occurrences c l1 + occurrences c l2)%nat.
Proof. unfold occurrences. now rewrite filter_app, length_app. Qed.

(** X6: [n] hotkey presses in a row leave the overlay as it was when [n] is
    even and toggled when [n] is odd; each press issues exactly one of
    [show()] and [hide()], and every [show()] comes with one [focus()]. *)
Theorem presses_alternate {W} `{Prompt W} (n : nat) (a : App W) (i : nat)
    (w : W) :
  at_overlay a i w -> listening a = true ->
  exists a' w' cs,
    exec (Run (replicate n Keydown)) a = Some a' /\
    at_overlay a' i w' /\
    visibility w'
    = (if Nat.even n then visibility w else flipped (visibility w)) /\
    calls a' = calls a ++ (pair i <$> cs) /\
    (occurrences CShow cs + occurrences CHide cs = n)%nat /\
    occurrences CFocus cs = occurrences CShow cs.
Proof.
  revert a w. induction n as [|n IH]; intros a w Ha Hl.
  - exists a, w, []. simpl. rewrite app_nil_r. now repeat split; try apply Ha.
  - destruct (deliver_Keydown a i w Ha Hl) as (a1 & He & Hs).
    assert (Hl1 : listening a1 = true)
      by (destruct Hs as (_ & _ & -> & _); exact Hl).
    destruct (IH a1 _ (proj1 Hs) Hl1)
      as (a' & w' & cs & Hr & Ha' & Hv & Hc & Hn & Hf).
    destruct Hs as (_ & Hc1 & _).
    eexists a', w', (_ ++ cs).
    change (replicate (S n) Keydown) with (Keydown :: replicate n Keydown).
    rewrite (exec_Run_cons _ _ _ _ He).
    split; [exact Hr|]. split; [exact Ha'|]. split; [|split; [|split]].
    + rewrite Hv, press_flips, Nat.even_succ, <- Nat.negb_even.
      destruct (Nat.even n); simpl; [reflexivity|apply flipped_flipped].
    + rewrite Hc, Hc1, fmap_app, app_assoc. reflexivity.
    + rewrite !occurrences_app, <- Hn.
      destruct (os_visible w); count_calls; lia.
    + rewrite !occurrences_app, Hf.
      destruct (os_visible w); count_calls; reflexivity.
Qed.

Lemma presses_alternate_witness :
  at_overlay (started hidden_window) 0 hidden_window /\
  exists a' w' cs,
    exec (Run (replicate 7 Keydown)) (started hidden_window) = Some a' /\
    at_overlay a' 0 w' /\
    visibility w' = Visible /\
    calls a' = pair 0%nat <$> cs /\
    (occurrences CShow cs + occurrences CHide cs = 7)%nat /\
    occurrences CFocus cs = occurrences CShow cs.
Proof.
  split; [split; reflexivity|].
  exact (presses_alternate 7 (started hidden_window) 0 hidden_window
           (conj eq_refl eq_refl) eq_refl).
Defined.

(** X7: the events that change anything are exactly those [main] registered
    a callback for: a hotkey press while the loop runs, a loss of focus of
    the overlay, the Escape key in the overlay, a click on the menu item.
    Every other event (another window, another key, another menu item, a
    press without the loop) leaves the process exactly as it was. *)
Theorem unheard_events_change_nothing {W} `{WindowSystem W} (e : Event)
    (a : App W) (i : nat) (w : W) :
  at_overlay a i w ->
  (exec (deliver e) a = Some a <-> unheard a e).
Proof.
  intros Ha.
  assert (Hgrow : forall a' cs w', overlay_step a i cs w' a' ->
                    cs <> [] -> Some a' <> Some a).
  { intros a' cs w' (_ & Hc & _) Hcs [= ->].
    apply (f_equal length) in Hc. rewrite length_app, length_fmap in Hc.
    destruct cs; [contradiction|simpl in Hc; lia]. }
  destruct e as [|j|j key|label]; simpl.
  - destruct (listening a) eqn:Hl.
    + destruct (deliver_Keydown a i w Ha Hl) as (a' & He & Hs).
      rewrite He. split; [|discriminate]. intros Heq. exfalso.
      apply (Hgrow _ _ _ Hs); [now destruct (os_visible w)|exact Heq].
    + unfold exec, deliver. rewrite Hl. now split.
  - destruct (decide (window a = Some j)) as [Hj|Hj].
    + assert (j = i) as -> by (destruct Ha; congruence).
      destruct (deliver_WindowLostFocus a i w Ha) as (a' & He & Hs).
      rewrite He. split; [|contradiction]. intros Heq. exfalso.
      now apply (Hgrow _ _ _ Hs).
    + unfold exec, deliver.
      destruct (decide (window a = Some j)); [contradiction|]. now split.
  - destruct (decide (window a = Some j)) as [Hj|Hj].
    + assert (j = i) as -> by (destruct Ha; congruence).
      destruct (decide (key = "escape")) as [->|Hk].
      * destruct (deliver_escape a i w Ha) as (a' & He & Hs).
        rewrite He. split; [|intros [|]; contradiction].
        intros Heq. exfalso. now apply (Hgrow _ _ _ Hs).
      * unfold exec, deliver, binding.
        destruct (decide (window a = Some i)); [|contradiction]. simpl.
        destruct (decide ("escape" = key)); [congruence|].
        split; [now right|reflexivity].
    + unfold exec, deliver, binding.
      destruct (decide (window a = Some j)); [contradiction|].
      split; [now left|reflexivity].
  - destruct (decide (label = "Hello World!")) as [->|Hn].
    + rewrite deliver_hello. split; [|contradiction].
      intros [= Heq]. exfalso. apply (f_equal windows) in Heq. simpl in Heq.
      apply (f_equal length) in Heq. rewrite length_app in Heq.
      simpl in Heq. lia.
    + unfold exec, deliver.
      destruct (decide (label = "Hello World!")); [contradiction|].
      now split.
Qed.

Lemma unheard_events_change_nothing_witness :
  at_overlay (started hidden_window) 0 hidden_window /\
  (exec (deliver (KeyPressed 0 "enter")) (started hidden_window)
   = Some (started hidden_window)
   <-> unheard (started hidden_window) (KeyPressed 0 "enter")).
Proof.
  split; [split; reflexivity|].
  exact (unheard_events_change_nothing (KeyPressed 0 "enter")
           (started hidden_window) 0 hidden_window (conj eq_refl eq_refl)).
Defined.

(** ** The two goroutines, continued *)

Lemma sched_step_calls {W} `{WindowSystem W} (g : Goroutine) (l : LoopPc)
    (f : ListenerPc) (a : App W) (i : nat) (w : W) (c : Conf W) :
  at_overlay a i w -> sched_step g (l, f, a) = Some c ->
  exists w', sched_move g (l, f, w) = Some (c.1.1, c.1.2, w') /\
             at_overlay c.2 i w' /\
             calls c.2 = calls a ++ (pair i <$> sched_call g (l, f, w)).
Proof.
  intros Ha Hc. destruct g; simpl in *.
  - destruct (loop_step_move l a i w Ha) as (a' & Hs & Ha' & Hk).
    destruct l; try discriminate; rewrite Hs in Hc; injection Hc as <-;
      eexists; (split; [reflexivity|]); (split; [exact Ha'|exact Hk]).
  - destruct f; [|discriminate].
    destruct (listener_step_move a i w Ha) as (a' & Hs & Ha' & Hk).
    rewrite Hs in Hc. injection Hc as <-.
    eexists. split; [reflexivity|]. split; [exact Ha'|exact Hk].
Qed.

Lemma schedule_calls {W} `{WindowSystem W} (gs : list Goroutine) :
  forall (l : LoopPc) (f : ListenerPc) (a : App W) (i : nat) (w : W)
         (c : Conf W),
  at_overlay a i w -> schedule gs (l, f, a) = Some c ->
  calls c.2 = calls a ++ (pair i <$> moves_calls gs (l, f, w)).
Proof.
  induction gs as [|g gs IH]; intros l f a i w c Ha Hc.
  - injection Hc as <-. simpl. now rewrite app_nil_r.
  - cbn [schedule] in Hc.
    destruct (sched_step g (l, f, a)) as [[[l1 f1] a1]|] eqn:Hg;
      [|discriminate].
    destruct (sched_step_calls _ _ _ _ _ _ _ Ha Hg) as (w1 & Hm & Ha1 & Hk).
    cbn [moves_calls]. rewrite Hm.
    rewrite (IH _ _ _ _ _ _ Ha1 Hc). simpl in Hk |- *.
    now rewrite Hk, fmap_app, app_assoc.
Qed.


(** X9: with the overlay visible, once the loop has tested [IsVisible]
    before the listener's [hide()] runs, both goroutines hide: whatever the
    rest of the schedule, [hide()] is called twice, [show()] and [focus()]
    are not called, and the overlay ends hidden. *)
Theorem both_goroutines_hide {W} `{Prompt W} (a : App W) (i : nat) (w : W)
    (gs : list Goroutine) (c : Conf W) :
  at_overlay a i w -> os_visible w = true ->
  schedule (HotkeyLoop :: gs) (both_pending a) = Some c -> finished c ->
  commands_after (length (calls a)) c.2 = [CHide; CHide] /\
  overlay_visibility c.2 = Some Hidden.
Proof.
  intros Ha Hv Hs [Hl Hf]. destruct c as [[l f] a']. simpl in Hl, Hf.
  subst l f.
  destruct (schedule_moves _ _ _ _ _ _ _ Ha Hs) as (w' & Hm & Ha').
  pose proof (schedule_calls _ _ _ _ _ _ _ Ha Hs) as Hc.
  cbn [moves moves_calls sched_move sched_call loop_move loop_call fst snd]
    in Hm, Ha', Hc.
  rewrite Hv in Hm, Hc.
  cbn [snd]. unfold overlay_visibility. rewrite (overlay_at _ _ _ Ha').
  rewrite (commands_after_app _ _ _ Hc), snd_pair_fmap. clear Hc Hs Ha Ha'.
  destruct gs as [|g1 [|g2 [|g3 [|g4 gs]]]];
    repeat match goal with g : Goroutine |- _ => destruct g end;
    cbn in Hm; try discriminate;
    injection Hm as <-; cbn;
    (split; [reflexivity|]); unfold visibility;
    now rewrite ?visible_focus, ?visible_show, ?visible_hide.
Qed.

Lemma both_goroutines_hide_witness :
  at_overlay (started (mkPrompt true true)) 0 (mkPrompt true true) /\
  os_visible (mkPrompt true true) = true /\
  exists c,
    schedule [HotkeyLoop; FocusListener; HotkeyLoop; HotkeyLoop]
      (both_pending (started (mkPrompt true true))) = Some c /\
    finished c /\
    commands_after 0 c.2 = [CHide; CHide] /\
    overlay_visibility c.2 = Some Hidden.
Proof.
  split; [split; reflexivity|]. split; [reflexivity|].
  eexists. split; [reflexivity|]. split; [split; reflexivity|].
  exact (both_goroutines_hide (started (mkPrompt true true)) 0
           (mkPrompt true true) [FocusListener; HotkeyLoop; HotkeyLoop] _
           (conj eq_refl eq_refl) eq_refl eq_refl (conj eq_refl eq_refl)).
Defined.
